(** * Observability core of the instrumented web service

    A shallow embedding of the three JavaScript modules of the application:
    - [logger.js]: the winston logger and the [log] helper that injects the
      active span's identifiers into the metadata of a record;
    - [app.js]: the Prometheus RED metrics, the metrics middleware with its
      ["finish"] listener, and the simulation routes;
    - [otel.js]: [resolveTracesUrl], the resolution of the OTLP traces
      endpoint from the process environment.

    JavaScript strings are modelled as [string]; every string operation of
    the program only inspects ASCII characters.  Objects used as maps
    (metadata, [process.env], [req.query], the accumulators of a metric) are
    finite maps. *)

From Stdlib Require Import ZArith QArith Ascii DecimalString DecimalPos.
From stdpp Require Import base gmap strings list fin_maps.

Local Open Scope Z_scope.

(** ** JavaScript helpers *)

Module Js.

(** [a || b] on a possibly undefined string: [undefined] and the empty
    string are falsy. *)
Definition or_else (a : option string) (b : string) : string :=
  match a with
  | Some s => if bool_decide (s = "") then b else s
  | None => b
  end.

(** Truthiness of a possibly undefined string. *)
Definition truthy (a : option string) : bool :=
  match a with
  | Some s => negb (bool_decide (s = ""))
  | None => false
  end.

(** [s] ends with [suf]. *)
Definition ends_with (suf s : string) : Prop :=
  ∃ pre : string, s = pre +:+ suf.

(** The search a regular expression [/lit$/] performs: every start
    position is tried, and the rest of the input has to be [lit]. *)
Fixpoint test_at_end (lit s : string) : bool :=
  bool_decide (s = lit) ||
  match s with
  | EmptyString => false
  | String _ s' => test_at_end lit s'
  end.

(** [s.replace(/\/+$/, "")]: the leftmost run of slashes that reaches the
    end of the input is removed. *)
Fixpoint strip_trailing_slashes (s : string) : string :=
  match s with
  | EmptyString => EmptyString
  | String c s' =>
      match strip_trailing_slashes s' with
      | EmptyString =>
          if bool_decide (c = "/"%char) then EmptyString
          else String c EmptyString
      | r => String c r
      end
  end.

(** A run of [n] slashes. *)
Fixpoint slashes (n : nat) : string :=
  match n with
  | O => EmptyString
  | S n => String "/" (slashes n)
  end.

(** [String(n)] for an integral number [n] (exact below 10^21, where
    JavaScript switches to exponent notation). *)
Definition String_of_int (n : Z) : string :=
  NilZero.string_of_int (Z.to_int n).

(** White space skipped by [parseInt] (the ASCII part of it). *)
Definition is_space (c : ascii) : bool :=
  bool_decide (c ∈ [" "; "009"; "010"; "011"; "012"; "013"]%char).

Fixpoint skip_spaces (s : string) : string :=
  match s with
  | String c s' => if is_space c then skip_spaces s' else s
  | EmptyString => s
  end.

(** The value of a character as a digit of the given radix. *)
Definition digit (radix : Z) (c : ascii) : option Z :=
  let n := Z.of_nat (nat_of_ascii c) in
  let v :=
    if (48 <=? n) && (n <=? 57) then Some (n - 48)
    else if (97 <=? n) && (n <=? 122) then Some (n - 87)
    else if (65 <=? n) && (n <=? 90) then Some (n - 55)
    else None in
  match v with
  | Some d => if d <? radix then Some d else None
  | None => None
  end.

(** The longest prefix of digits; [None] (NaN) when there is none. *)
Fixpoint digits (radix : Z) (acc : option Z) (s : string) : option Z :=
  match s with
  | String c s' =>
      match digit radix c with
      | Some d => digits radix (Some (default 0 acc * radix + d)) s'
      | None => acc
      end
  | EmptyString => acc
  end.

(** [parseInt(s)] for a string [s]; [None] is NaN (exact while the
    result is below 2^53). *)
Definition parseInt (s : string) : option Z :=
  let s := skip_spaces s in
  let '(sign, s) :=
    match s with
    | String "-" r => (-1, r)
    | String "+" r => (1, r)
    | _ => (1, s)
    end in
  let '(radix, s) :=
    match s with
    | String "0" (String "x" r) => (16, r)
    | String "0" (String "X" r) => (16, r)
    | _ => (10, s)
    end in
  Z.mul sign <$> digits radix None s.

(** [parseInt(q) || d] for a query parameter [q] that may be absent:
    NaN and zero are falsy. *)
Definition parseInt_or (q : option string) (d : Z) : Z :=
  match q ≫= parseInt with
  | Some n => if n =? 0 then d else n
  | None => d
  end.

End Js.

(** ** otel.js *)

Module otel.

Definition default_endpoint : string := "http://jaeger:4318".

(** [/\/v1\/traces\/?$/.test(base)] *)
Definition points_to_traces (base : string) : bool :=
  Js.test_at_end "/v1/traces" base || Js.test_at_end "/v1/traces/" base.

(** [const base = process.env.OTEL_EXPORTER_OTLP_TRACES_ENDPOINT ||
    process.env.OTEL_EXPORTER_OTLP_ENDPOINT || "http://jaeger:4318"] *)
Definition base (env : gmap string string) : string :=
  Js.or_else (env !! "OTEL_EXPORTER_OTLP_TRACES_ENDPOINT")
    (Js.or_else (env !! "OTEL_EXPORTER_OTLP_ENDPOINT") default_endpoint).

Definition resolveTracesUrl (env : gmap string string) : string :=
  let base := base env in
  if points_to_traces base then base
  else Js.strip_trailing_slashes base +:+ "/v1/traces".

End otel.

(** ** logger.js *)

Module logger.

(** The severity tags the module exports a method for. *)
Inductive level := LvlError | LvlWarn | LvlInfo | LvlDebug.

#[export] Instance level_eq_dec : EqDecision level.
Proof. solve_decision. Defined.

(** Primitive values stored in the metadata of a record. *)
Inductive jsval := JStr (s : string) | JNum (n : Z).

(** [span.spanContext()]: the identifiers of a span. *)
Record SpanContext := { traceId : string; spanId : string }.

(** What [logger.log(level, message, meta)] hands to the winston logger. *)
Record entry := {
  entry_level : level;
  entry_message : string;
  entry_meta : gmap string jsval;
}.

(** winston's npm priorities of the four levels. *)
Definition npm_priority (l : level) : nat :=
  match l with
  | LvlError => 0
  | LvlWarn => 1
  | LvlInfo => 2
  | LvlDebug => 5
  end%nat.

(** [winston.createLogger({ level: "info", ... })] *)
Definition configured_level : level := LvlInfo.

(** The level test of the winston logger (library behaviour, not code of
    this repository): an entry passes on to the transports when its
    priority is at most that of the configured level. *)
Definition written (e : entry) : bool :=
  (npm_priority (entry_level e) <=? npm_priority configured_level)%nat.

(** [const log = (level, message, meta = {}) => { ... }].
    [meta] is [None] when the argument is omitted; [span] is the result of
    [api.trace.getSpan(api.context.active())]; [received] is the sequence
    of entries handed to the winston logger so far. *)
Definition log (lvl : level) (message : string)
    (meta : option (gmap string jsval)) (span : option SpanContext)
    (received : list entry) : list entry :=
  let meta := default ∅ meta in
  let meta :=
    match span with
    | Some sc =>
        <["span_id" := JStr (spanId sc)]>
          (<["trace_id" := JStr (traceId sc)]> meta)
    | None => meta
    end in
  received ++ [ {| entry_level := lvl; entry_message := message;
                   entry_meta := meta |} ].

Definition info := log LvlInfo.
Definition error := log LvlError.
Definition warn := log LvlWarn.
Definition debug := log LvlDebug.

(** [module.exports]: the method exported for each level. *)
Definition exports (l : level) :=
  match l with
  | LvlInfo => info
  | LvlError => error
  | LvlWarn => warn
  | LvlDebug => debug
  end.

End logger.

(** ** app.js *)

Module app.

Import logger.

(** *** Metrics *)

Record Labels := { method : string; route : string; status_code : string }.

#[export] Instance Labels_eq_dec : EqDecision Labels.
Proof. solve_decision. Defined.

#[export] Instance Labels_countable : Countable Labels.
Proof.
  refine (inj_countable'
    (λ l, (method l, route l, status_code l))
    (λ t, {| method := t.1.1; route := t.1.2; status_code := t.2 |}) _).
  by intros [].
Defined.

(** [counter.inc(labels)] *)
Definition inc (labels : Labels) (c : gmap Labels nat) : gmap Labels nat :=
  <[labels := S (default 0%nat (c !! labels))]> c.

(** [histogram.observe(labels, value)] *)
Definition observe (labels : Labels) (v : Q) (h : gmap Labels (list Q))
    : gmap Labels (list Q) :=
  <[labels := default [] (h !! labels) ++ [v]]> h.

(** The current value of a counter for a label set. *)
Definition value (c : gmap Labels nat) (labels : Labels) : nat :=
  default 0%nat (c !! labels).

(** The observations recorded by a histogram for a label set. *)
Definition observations (h : gmap Labels (list Q)) (labels : Labels)
    : list Q :=
  default [] (h !! labels).

(** The mutable state the module works on: the three RED metrics and the
    entries received by the winston logger. *)
Record State := {
  httpRequestDuration : gmap Labels (list Q);
  httpRequestsTotal : gmap Labels nat;
  httpErrorsTotal : gmap Labels nat;
  received : list entry;
}.

Definition initial : State :=
  {| httpRequestDuration := ∅; httpRequestsTotal := ∅;
     httpErrorsTotal := ∅; received := [] |}.

Definition with_log (f : list entry → list entry) (st : State) : State :=
  {| httpRequestDuration := httpRequestDuration st;
     httpRequestsTotal := httpRequestsTotal st;
     httpErrorsTotal := httpErrorsTotal st;
     received := f (received st) |}.

(** *** Requests *)

(** [req.route], set by the router once a route has matched. *)
Record Route := { path : string }.

Record Request := {
  req_method : string;
  req_route : option Route;
  req_path : option string;
  req_query : gmap string string;
}.

(** [req.route && req.route.path ? req.route.path : req.path || "unknown"] *)
Definition route_label (req : Request) : string :=
  match req_route req with
  | Some r =>
      if Js.truthy (Some (path r)) then path r
      else Js.or_else (req_path req) "unknown"
  | None => Js.or_else (req_path req) "unknown"
  end.

(** [Number(end - start) / 1e9], as an exact rational. *)
Definition durationSeconds (start end_ : Z) : Q :=
  Qmake (end_ - start) 1000000000.

Definition labels_of (req : Request) (statusCode : Z) : Labels :=
  {| method := req_method req; route := route_label req;
     status_code := Js.String_of_int statusCode |}.

(** The three metric objects, as updates of the state. *)
Definition httpRequestDuration_observe (labels : Labels) (v : Q)
    (st : State) : State :=
  {| httpRequestDuration := observe labels v (httpRequestDuration st);
     httpRequestsTotal := httpRequestsTotal st;
     httpErrorsTotal := httpErrorsTotal st;
     received := received st |}.

Definition httpRequestsTotal_inc (labels : Labels) (st : State) : State :=
  {| httpRequestDuration := httpRequestDuration st;
     httpRequestsTotal := inc labels (httpRequestsTotal st);
     httpErrorsTotal := httpErrorsTotal st;
     received := received st |}.

Definition httpErrorsTotal_inc (labels : Labels) (st : State) : State :=
  {| httpRequestDuration := httpRequestDuration st;
     httpRequestsTotal := httpRequestsTotal st;
     httpErrorsTotal := inc labels (httpErrorsTotal st);
     received := received st |}.

(** The listener the middleware registers for ["finish"].  [start] is
    captured at registration; the request, the status code, the clock
    ([process.hrtime.bigint()], in nanoseconds) and the active span are
    read when the listener runs. *)
Definition on_finish (start : Z) (req : Request) (statusCode : Z)
    (end_ : Z) (span : option SpanContext) (st : State) : State :=
  let durationSeconds := durationSeconds start end_ in
  let route := route_label req in
  let labels := labels_of req statusCode in
  let st := httpRequestDuration_observe labels durationSeconds st in
  let st := httpRequestsTotal_inc labels st in
  if 500 <=? statusCode then
    let st := httpErrorsTotal_inc labels st in
    with_log
      (error ("Request failed: " +:+ req_method req +:+ " " +:+ route)
         (Some {[ "status_code" := JNum statusCode;
                  "route" := JStr route ]}) span) st
  else
    with_log
      (info ("Request processed: " +:+ req_method req +:+ " " +:+ route)
         (Some {[ "status_code" := JNum statusCode;
                  "route" := JStr route ]}) span) st.

(** *** The response as an event emitter *)

(** A listener reads the request, [res.statusCode], the clock and the
    active span at the moment the event is emitted. *)
Definition Listener : Type :=
  Request → Z → Z → option SpanContext → State → State.

Record Response := {
  statusCode : Z;
  listeners : list (string * Listener);
}.

(** [res.on(event, listener)] *)
Definition on (event : string) (cb : Listener) (res : Response) : Response :=
  {| statusCode := statusCode res;
     listeners := listeners res ++ [(event, cb)] |}.

(** [res.emit(event)]: the listeners of the event run in the order of
    their registration. *)
Definition emit (event : string) (req : Request) (res : Response)
    (now : Z) (span : option SpanContext) (st : State) : State :=
  foldl (λ st l, if bool_decide (l.1 = event)
                 then l.2 req (statusCode res) now span st else st)
    st (listeners res).

(** [app.use((req, res, next) => { const start = ...; res.on("finish",
    ...); next(); })]: the part before [next()]. *)
Definition metricsMiddleware (now : Z) (res : Response) : Response :=
  let start := now in
  on "finish" (on_finish start) res.

(** *** Route handlers *)

(** What a handler has done when it has answered: the state it leaves, the
    delay of the timer it awaited (milliseconds, 0 for none), and the
    code it passed to [res.status(code)] before sending the body. *)
Record Outcome := {
  out_state : State;
  out_delay : Z;
  out_status : Z;
}.

Definition Handler : Type := Request → option SpanContext → State → Outcome.

(** [app.get("/", ...)] *)
Definition root : Handler := λ req span st,
  {| out_state := st; out_delay := 0; out_status := 200 |}.

(** [app.get("/simulate-latency", ...)] *)
Definition simulateLatency : Handler := λ req span st,
  let delay := Js.parseInt_or (req_query req !! "ms") 500 in
  let st :=
    with_log
      (info ("Simulating latency of " +:+ Js.String_of_int delay +:+ "ms")
         None span) st in
  {| out_state := st; out_delay := delay; out_status := 200 |}.

(** [app.get("/simulate-error", ...)] *)
Definition simulateError : Handler := λ req span st,
  let code := Js.parseInt_or (req_query req !! "code") 500 in
  let st :=
    with_log
      (warn ("Simulating error with code " +:+ Js.String_of_int code)
         None span) st in
  {| out_state := st; out_delay := 0; out_status := code |}.

(** *** One request through the application *)

(** The router either finds a route, whose pattern becomes [req.route]
    and whose handler runs, or no route handler runs and the framework
    answers by itself (404 when no route matches the request). *)
Inductive Dispatch :=
| Matched (r : Route) (h : Handler)
| Unrouted (code : Z).

(** How the exchange ends: the response is handed to the operating system
    (["finish"], then ["close"]), or the connection is gone before that
    (["close"] only). *)
Inductive Completion := Finished | Aborted.

(** The events the runtime emits on the response, in order. *)
Definition events (c : Completion) : list string :=
  match c with
  | Finished => ["finish"; "close"]
  | Aborted => ["close"]
  end.


(** The status code the exchange ends with.  This is a model of the
    runtime, not of code of this repository: Node refuses to write a status
    code outside 100..999, and the framework's error handler then answers
    500. *)
Definition final_status (code : Z) : Z :=
  if (100 <=? code) && (code <=? 999) then code else 500.

Definition matched (d : Dispatch) (req : Request) : Request :=
  match d with
  | Matched r _ =>
      {| req_method := req_method req; req_route := Some r;
         req_path := req_path req; req_query := req_query req |}
  | Unrouted _ => req
  end.

Definition handle (d : Dispatch) : Handler :=
  match d with
  | Matched _ h => h
  | Unrouted code => λ req span st,
      {| out_state := st; out_delay := 0; out_status := code |}
  end.

(** A request entering at clock [t0] and ending [elapsed] nanoseconds
    later: the middleware registers its listener, the handler runs, and
    the runtime emits the events of the completion. *)
Definition serve (d : Dispatch) (req : Request) (t0 elapsed : Z)
    (c : Completion) (span : option SpanContext) (st : State) : State :=
  let res := metricsMiddleware t0 {| statusCode := 200; listeners := [] |} in
  let req := matched d req in
  let o := handle d req span st in
  let res := {| statusCode := final_status (out_status o);
                listeners := listeners res |} in
  let now := t0 + elapsed in
  foldl (λ st ev, emit ev req res now span st) (out_state o) (events c).

End app.

(** ** app.js: the registered routes and the event loop *)

Module server.

Import logger app.

(** [app.get("/metrics", ...)]: [rendered] is the outcome of
    [await client.register.metrics()], [None] when it rejects; the body is
    sent with the default status on success, and [res.status(500)] is
    called in the [catch] branch. *)
Definition metricsRoute (rendered : option string) : Handler :=
  λ req span st,
    {| out_state := st; out_delay := 0;
       out_status := match rendered with Some _ => 200 | None => 500 end |}.

(** The routes [app.js] registers with [app.get]. *)
Inductive AppRoute :=
| GetRoot
| GetSimulateLatency
| GetSimulateError
| GetMetrics (rendered : option string).

Definition pattern (r : AppRoute) : string :=
  match r with
  | GetRoot => "/"
  | GetSimulateLatency => "/simulate-latency"
  | GetSimulateError => "/simulate-error"
  | GetMetrics _ => "/metrics"
  end.

Definition handler (r : AppRoute) : Handler :=
  match r with
  | GetRoot => root
  | GetSimulateLatency => simulateLatency
  | GetSimulateError => simulateError
  | GetMetrics rendered => metricsRoute rendered
  end.

(** What the router does with a request that matches [r]. *)
Definition registered (r : AppRoute) : Dispatch :=
  Matched {| path := pattern r |} (handler r).

(** The callbacks the event loop runs on the shared state, one at a time:
    a route handler up to its answer, or the ["finish"] listener of some
    request.  Requests in flight interleave at this grain. *)
Inductive Callback :=
| RunHandler (r : AppRoute) (req : Request) (span : option SpanContext)
| FinishListener (start : Z) (req : Request) (statusCode : Z) (end_ : Z)
    (span : option SpanContext).

Definition step (cb : Callback) (st : State) : State :=
  match cb with
  | RunHandler r req span => out_state (handler r req span st)
  | FinishListener start req statusCode end_ span =>
      on_finish start req statusCode end_ span st
  end.

Definition run (cbs : list Callback) (st : State) : State :=
  foldl (λ st cb, step cb st) st cbs.

(** Label sets that were never counted hold nothing, and on every other
    one the status code is a numeral that decides whether errors follow
    requests or stay at zero. *)
Definition accounted (st : State) : Prop :=
  ∀ l, (value (httpRequestsTotal st) l = 0%nat ∧
        value (httpErrorsTotal st) l = 0%nat) ∨
       ∃ code, status_code l = Js.String_of_int code ∧
               value (httpErrorsTotal st) l
               = if 500 <=? code then value (httpRequestsTotal st) l
                 else 0%nat.

End server.

(** ** app.js: the calls of the metrics middleware *)

Module calls.

Import logger app.





End calls.

(** * Properties *)

(** ** Strings *)

Section strings.

Implicit Types s t lit suf pre : string.

Lemma append_nil s : "" +:+ s = s.
Proof. reflexivity. Qed.

Lemma append_cons c s t : String c s +:+ t = String c (s +:+ t).
Proof. reflexivity. Qed.

Lemma append_eq_empty s t : s +:+ t = "" → s = "" ∧ t = "".
Proof. destruct s; [by rewrite append_nil|by rewrite append_cons]. Qed.

Lemma ends_with_append pre suf : Js.ends_with suf (pre +:+ suf).
Proof. by exists pre. Qed.

Lemma ends_with_cons suf c s :
  Js.ends_with suf (String c s) ↔ String c s = suf ∨ Js.ends_with suf s.
Proof.
  split.
  - intros [[|d pre] Hpre]; [by left|].
    rewrite append_cons in Hpre. right. exists pre. congruence.
  - intros [<-|[pre ->]]; [by exists ""|by exists (String c pre)].
Qed.

Lemma ends_with_empty suf : Js.ends_with suf "" ↔ suf = "".
Proof.
  split.
  - intros [pre Hpre]. symmetry in Hpre.
    apply append_eq_empty in Hpre. tauto.
  - intros ->. by exists "".
Qed.

Lemma ends_with_nonempty suf s : suf ≠ "" → Js.ends_with suf s → s ≠ "".
Proof. intros Hsuf Hs ->. by apply ends_with_empty in Hs. Qed.

(** The search of [/lit$/] succeeds exactly on the inputs that end with
    [lit]. *)
Lemma test_at_end_spec lit s :
  Js.test_at_end lit s = true ↔ Js.ends_with lit s.
Proof.
  induction s as [|c s IH]; simpl.
  - rewrite orb_false_r, bool_decide_eq_true, ends_with_empty. naive_solver.
  - rewrite orb_true_iff, bool_decide_eq_true, IH, ends_with_cons. done.
Qed.

(** What is left after [replace(/\/+$/, "")] does not end with a slash,
    and the input is that stem followed by slashes only. *)
Lemma strip_trailing_slashes_spec s :
  ∃ n, s = Js.strip_trailing_slashes s +:+ Js.slashes n ∧
       ¬ Js.ends_with "/" (Js.strip_trailing_slashes s).
Proof.
  induction s as [|c s (n & Hs & Hend)]; simpl.
  - exists 0%nat. split; [done|]. rewrite ends_with_empty. done.
  - destruct (Js.strip_trailing_slashes s) as [|d r] eqn:Hstrip.
    + rewrite append_nil in Hs.
      destruct (bool_decide_reflect (c = "/"%char)) as [Hc|Hc].
      * exists (S n). simpl. by rewrite append_nil, Hc, Hs.
      * exists n. rewrite append_cons, append_nil. split; [by rewrite Hs|].
        rewrite ends_with_cons, ends_with_empty. by intros [[= ->]|[=]].
    + exists n. split; [rewrite append_cons; by rewrite Hs at 1|].
      rewrite ends_with_cons. by intros [?|?].
Qed.

End strings.

(** ** otel.js: the traces endpoint *)

Section traces_url.

Implicit Types (env : gmap string string) (b : string).

(** The test [/\/v1\/traces\/?$/] holds for the bases that end with
    [/v1/traces] or with [/v1/traces/]. *)
Lemma points_to_traces_spec b :
  otel.points_to_traces b = true ↔
  Js.ends_with "/v1/traces" b ∨ Js.ends_with "/v1/traces/" b.
Proof.
  unfold otel.points_to_traces.
  by rewrite orb_true_iff, !test_at_end_spec.
Qed.

Lemma resolveTracesUrl_suffix env :
  Js.ends_with "/v1/traces" (otel.resolveTracesUrl env) ∨
  Js.ends_with "/v1/traces/" (otel.resolveTracesUrl env).
Proof.
  unfold otel.resolveTracesUrl.
  destruct (otel.points_to_traces (otel.base env)) eqn:Htest.
  - by apply points_to_traces_spec.
  - left. apply ends_with_append.
Qed.

Lemma resolveTracesUrl_nonempty env : otel.resolveTracesUrl env ≠ "".
Proof.
  destruct (resolveTracesUrl_suffix env) as [H|H];
    by eapply ends_with_nonempty in H.
Qed.

Lemma base_of_traces_endpoint env b :
  b ≠ "" →
  otel.base (<["OTEL_EXPORTER_OTLP_TRACES_ENDPOINT" := b]> env) = b.
Proof.
  intros Hb. unfold otel.base. rewrite lookup_insert_eq. simpl.
  by rewrite bool_decide_eq_false_2.
Qed.

End traces_url.

(** C10, as stated, fails: a base that already ends in [/v1/traces/] is kept
    as it is, so the resolved URL ends with a slash and not with
    [/v1/traces]. *)
Lemma C10_trailing_slash_kept :
  otel.resolveTracesUrl
    {[ "OTEL_EXPORTER_OTLP_ENDPOINT" := "http://jaeger:4318/v1/traces/" ]}
  = "http://jaeger:4318/v1/traces/" ∧
  ¬ Js.ends_with "/v1/traces"
      (otel.resolveTracesUrl
         {[ "OTEL_EXPORTER_OTLP_ENDPOINT" := "http://jaeger:4318/v1/traces/" ]}).
Proof.
  assert (otel.resolveTracesUrl
    {[ "OTEL_EXPORTER_OTLP_ENDPOINT" := "http://jaeger:4318/v1/traces/" ]}
    = "http://jaeger:4318/v1/traces/") as -> by (vm_compute; reflexivity).
  split; [done|].
  rewrite <- test_at_end_spec. vm_compute. discriminate.
Qed.

(** C10 (amended): for every environment, [resolveTracesUrl] returns a URL
    that ends in [/v1/traces] or in [/v1/traces/]; a base that already ends
    in [/v1/traces], with or without one more slash, is returned as it is;
    any other base is cut back to its stem without trailing slashes and
    [/v1/traces] is appended, which gives a URL ending in [/v1/traces];
    when each of the two variables is unset or empty the base is
    [http://jaeger:4318]; and resolving again from the resolved URL returns
    it unchanged. *)
Theorem C10_resolveTracesUrl env :
  let b := otel.base env in
  let url := otel.resolveTracesUrl env in
  (Js.ends_with "/v1/traces" url ∨ Js.ends_with "/v1/traces/" url) ∧
  (Js.ends_with "/v1/traces" b ∨ Js.ends_with "/v1/traces/" b → url = b) ∧
  (¬ (Js.ends_with "/v1/traces" b ∨ Js.ends_with "/v1/traces/" b) →
     ∃ stem n, b = stem +:+ Js.slashes n ∧ ¬ Js.ends_with "/" stem ∧
               url = stem +:+ "/v1/traces" ∧ Js.ends_with "/v1/traces" url) ∧
  (env !! "OTEL_EXPORTER_OTLP_TRACES_ENDPOINT" = None ∨
   env !! "OTEL_EXPORTER_OTLP_TRACES_ENDPOINT" = Some "" →
   env !! "OTEL_EXPORTER_OTLP_ENDPOINT" = None ∨
   env !! "OTEL_EXPORTER_OTLP_ENDPOINT" = Some "" →
     b = "http://jaeger:4318" ∧ url = "http://jaeger:4318/v1/traces") ∧
  otel.resolveTracesUrl
    (<["OTEL_EXPORTER_OTLP_TRACES_ENDPOINT" := url]> env) = url.
Proof.
  intros b url. split_and!.
  - apply resolveTracesUrl_suffix.
  - intros Hb%points_to_traces_spec. subst url b.
    unfold otel.resolveTracesUrl. by rewrite Hb.
  - intros Hb. destruct (strip_trailing_slashes_spec b) as (n & Hn & Hstem).
    exists (Js.strip_trailing_slashes b), n. split_and!; [done..| |].
    + subst url b. unfold otel.resolveTracesUrl.
      destruct (otel.points_to_traces (otel.base env)) eqn:Htest; [|done].
      by apply points_to_traces_spec in Htest.
    + subst url b. unfold otel.resolveTracesUrl.
      destruct (otel.points_to_traces (otel.base env)) eqn:Htest.
      * by apply points_to_traces_spec in Htest.
      * apply ends_with_append.
  - intros [H1|H1] [H2|H2]; subst url b;
      unfold otel.resolveTracesUrl, otel.base; rewrite H1, H2; done.
  - unfold otel.resolveTracesUrl at 1.
    rewrite base_of_traces_endpoint by apply resolveTracesUrl_nonempty.
    fold url.
    destruct (otel.points_to_traces url) eqn:Htest; [done|].
    apply not_true_iff_false in Htest.
    exfalso. apply Htest, points_to_traces_spec, resolveTracesUrl_suffix.
Qed.

(** ** logger.js: the correlated logger *)

Section correlated_logger.

Import logger.

Implicit Types (lvl : level) (msg : string) (sc : SpanContext)
  (meta : option (gmap string jsval)) (span : option SpanContext)
  (received : list entry).

(** Every call hands exactly one entry to the winston logger. *)
Lemma log_received lvl msg meta span received :
  ∃ e, log lvl msg meta span received = received ++ [e] ∧
       entry_level e = lvl ∧ entry_message e = msg.
Proof. unfold log. eauto. Qed.

Lemma log_length lvl msg meta span received :
  length (log lvl msg meta span received) = S (length received).
Proof. unfold log. rewrite length_app. simpl. lia. Qed.

(** The two assignments [meta.trace_id = traceId; meta.span_id = spanId]
    are a merge in which the identifiers of the span win. *)
Lemma inject_merge sc (m : gmap string jsval) :
  <["span_id" := JStr (spanId sc)]> (<["trace_id" := JStr (traceId sc)]> m)
  = {[ "trace_id" := JStr (traceId sc); "span_id" := JStr (spanId sc) ]} ∪ m.
Proof.
  apply map_eq. intros k.
  destruct (decide (k = "span_id")) as [->|Hs].
  { rewrite lookup_insert_eq. symmetry. apply lookup_union_Some_l.
    rewrite lookup_insert_ne by done. apply lookup_insert_eq. }
  rewrite lookup_insert_ne by done.
  destruct (decide (k = "trace_id")) as [->|Ht].
  { rewrite lookup_insert_eq. symmetry. apply lookup_union_Some_l.
    apply lookup_insert_eq. }
  rewrite lookup_insert_ne by done.
  rewrite lookup_union_r; [done|].
  rewrite lookup_insert_ne by done. by apply lookup_singleton_ne.
Qed.

(** With the threshold ["info"] the entries of the levels error, warn and
    info pass the level test of the winston logger, and those of the level
    debug do not. *)
Lemma written_iff e : written e = true ↔ entry_level e ≠ LvlDebug.
Proof. destruct e as [[] ? ?]; vm_compute; naive_solver. Qed.

End correlated_logger.

(** C2: for every call [log(level, message, metadata)], one record is
    emitted with the level and message of the call; if a span is active its
    metadata is the caller's metadata merged with the [trace_id] and
    [span_id] of that span (every other key is the caller's), and if no span
    is active its metadata is the caller's, unchanged.  The call has no
    failing step: [log] is a total function of its arguments. *)
Theorem C2_log_merges_span_ids
    (lvl : logger.level) (msg : string)
    (meta : option (gmap string logger.jsval))
    (span : option logger.SpanContext) (received : list logger.entry) :
  ∃ e, logger.log lvl msg meta span received = received ++ [e] ∧
       logger.entry_level e = lvl ∧ logger.entry_message e = msg ∧
       match span with
       | Some sc =>
           logger.entry_meta e =
             {[ "trace_id" := logger.JStr (logger.traceId sc);
                "span_id" := logger.JStr (logger.spanId sc) ]}
             ∪ default ∅ meta ∧
           logger.entry_meta e !! "trace_id"
             = Some (logger.JStr (logger.traceId sc)) ∧
           logger.entry_meta e !! "span_id"
             = Some (logger.JStr (logger.spanId sc)) ∧
           ∀ k, k ≠ "trace_id" → k ≠ "span_id" →
                logger.entry_meta e !! k = default ∅ meta !! k
       | None => logger.entry_meta e = default ∅ meta
       end.
Proof.
  unfold logger.log. eexists. split; [reflexivity|]. simpl.
  split_and!; [done..|].
  destruct span as [sc|]; [|done].
  split_and!.
  - apply inject_merge.
  - rewrite lookup_insert_ne by done. apply lookup_insert_eq.
  - apply lookup_insert_eq.
  - intros k Ht Hs. by rewrite !lookup_insert_ne.
Qed.

(** C7: each of the four exported levels is a pass-through tag: for debug,
    info, warn and error alike, a call hands exactly one record, tagged with
    that level and carrying the message of the call, to the underlying
    winston logger; the helper looks at the level nowhere. *)
Theorem C7_levels_pass_through
    (lvl : logger.level) (msg : string)
    (meta : option (gmap string logger.jsval))
    (span : option logger.SpanContext) (received : list logger.entry) :
  logger.exports lvl msg meta span received
    = logger.log lvl msg meta span received ∧
  length (logger.exports lvl msg meta span received) = S (length received) ∧
  ∃ e, logger.exports lvl msg meta span received = received ++ [e] ∧
       logger.entry_level e = lvl ∧ logger.entry_message e = msg.
Proof.
  assert (logger.exports lvl msg meta span received
          = logger.log lvl msg meta span received) as -> by by destruct lvl.
  split_and!; [done|apply log_length|apply log_received].
Qed.

(** ** app.js: the metrics middleware *)

Section metrics.

Import logger app.

Implicit Types (l labels : Labels) (c : gmap Labels nat)
  (h : gmap Labels (list Q)) (st : State) (req : Request)
  (span : option SpanContext).

Lemma value_inc labels c : value (inc labels c) labels = S (value c labels).
Proof. unfold value, inc. by rewrite lookup_insert_eq. Qed.

Lemma lookup_inc_ne labels l c : l ≠ labels → inc labels c !! l = c !! l.
Proof. intros Hl. unfold inc. by rewrite lookup_insert_ne. Qed.

Lemma observations_observe labels v h :
  observations (observe labels v h) labels = observations h labels ++ [v].
Proof. unfold observations, observe. by rewrite lookup_insert_eq. Qed.

Lemma lookup_observe_ne labels l v h :
  l ≠ labels → observe labels v h !! l = h !! l.
Proof. intros Hl. unfold observe. by rewrite lookup_insert_ne. Qed.

(** The effect of the ["finish"] listener on each part of the state. *)
Lemma on_finish_duration start req code end_ span st :
  httpRequestDuration (on_finish start req code end_ span st) =
  observe (labels_of req code) (durationSeconds start end_)
    (httpRequestDuration st).
Proof. unfold on_finish. by destruct (500 <=? code). Qed.

Lemma on_finish_requests start req code end_ span st :
  httpRequestsTotal (on_finish start req code end_ span st) =
  inc (labels_of req code) (httpRequestsTotal st).
Proof. unfold on_finish. by destruct (500 <=? code). Qed.

Lemma on_finish_errors start req code end_ span st :
  httpErrorsTotal (on_finish start req code end_ span st) =
  if 500 <=? code then inc (labels_of req code) (httpErrorsTotal st)
  else httpErrorsTotal st.
Proof. unfold on_finish. by destruct (500 <=? code). Qed.

Lemma on_finish_received start req code end_ span st :
  ∃ e, received (on_finish start req code end_ span st)
         = received st ++ [e] ∧
       entry_level e = (if 500 <=? code then LvlError else LvlInfo) ∧
       entry_message e =
         (if 500 <=? code then "Request failed: " else "Request processed: ")
         +:+ req_method req +:+ " " +:+ route_label req ∧
       (∀ sc, span = Some sc →
          entry_meta e !! "trace_id" = Some (JStr (traceId sc)) ∧
          entry_meta e !! "span_id" = Some (JStr (spanId sc))) ∧
       entry_meta e !! "status_code" = Some (JNum code) ∧
       entry_meta e !! "route" = Some (JStr (route_label req)).
Proof.
  unfold on_finish.
  destruct (500 <=? code); simpl; unfold error, info, log;
    (eexists; split; [reflexivity|]); simpl;
    (split_and!; [done..| | |]);
    destruct span as [sc|]; simpl; try done;
    try (intros ? [= <-]; split);
    by simplify_map_eq.
Qed.

(** Emitting an event on the response the middleware has prepared. *)
Lemma emit_finish start req code now span st :
  emit "finish" req
    {| statusCode := code;
       listeners := listeners (metricsMiddleware start
                      {| statusCode := 200; listeners := [] |}) |}
    now span st
  = on_finish start req code now span st.
Proof. reflexivity. Qed.

Lemma emit_close start req code now span st :
  emit "close" req
    {| statusCode := code;
       listeners := listeners (metricsMiddleware start
                      {| statusCode := 200; listeners := [] |}) |}
    now span st
  = st.
Proof. reflexivity. Qed.

(** A finished exchange runs the listener once, on the state the handler
    has left; an aborted one leaves that state as it is. *)
Lemma serve_finished d req t0 elapsed span st :
  serve d req t0 elapsed Finished span st =
  on_finish t0 (matched d req)
    (final_status (out_status (handle d (matched d req) span st)))
    (t0 + elapsed) span (out_state (handle d (matched d req) span st)).
Proof. reflexivity. Qed.

Lemma serve_aborted d req t0 elapsed span st :
  serve d req t0 elapsed Aborted span st =
  out_state (handle d (matched d req) span st).
Proof. reflexivity. Qed.



End metrics.

(** C1: for every request that completes through the middleware, with
    [code] its final status code and [labels] the label set built from the
    method, the derived route label and [String(code)]: the histogram gets
    exactly one more observation (the measured duration) under [labels] and
    nothing else changes in it; [http_requests_total] goes up by exactly one
    under [labels] and nowhere else; [http_errors_total] goes up by exactly
    one under the same [labels], and nowhere else, when [code >= 500], and
    is left untouched when [code < 500]. *)
Theorem C1_red_metrics_once
    (d : app.Dispatch) (req : app.Request) (t0 elapsed : Z)
    (span : option logger.SpanContext) (st : app.State) :
  let req' := app.matched d req in
  let o := app.handle d req' span st in
  let code := app.final_status (app.out_status o) in
  let labels :=
    {| app.method := app.req_method req';
       app.route := app.route_label req';
       app.status_code := Js.String_of_int code |} in
  let st' := app.serve d req t0 elapsed app.Finished span st in
  (app.observations (app.httpRequestDuration st') labels
     = app.observations (app.httpRequestDuration (app.out_state o)) labels
       ++ [app.durationSeconds t0 (t0 + elapsed)] ∧
   ∀ l, l ≠ labels →
     app.httpRequestDuration st' !! l
       = app.httpRequestDuration (app.out_state o) !! l) ∧
  (app.value (app.httpRequestsTotal st') labels
     = S (app.value (app.httpRequestsTotal (app.out_state o)) labels) ∧
   ∀ l, l ≠ labels →
     app.httpRequestsTotal st' !! l
       = app.httpRequestsTotal (app.out_state o) !! l) ∧
  (500 ≤ code →
     app.value (app.httpErrorsTotal st') labels
       = S (app.value (app.httpErrorsTotal (app.out_state o)) labels) ∧
     ∀ l, l ≠ labels →
       app.httpErrorsTotal st' !! l
         = app.httpErrorsTotal (app.out_state o) !! l) ∧
  (code < 500 →
     app.httpErrorsTotal st' = app.httpErrorsTotal (app.out_state o)).
Proof.
  intros req' o code labels st'. subst st'. rewrite serve_finished.
  fold req' o code. change labels with (app.labels_of req' code).
  rewrite on_finish_duration, on_finish_requests, on_finish_errors.
  split_and!.
  - apply observations_observe.
  - intros l Hl. by apply lookup_observe_ne.
  - apply value_inc.
  - intros l Hl. by apply lookup_inc_ne.
  - intros Hcode. apply Z.leb_le in Hcode. rewrite Hcode.
    split; [apply value_inc|]. intros l Hl. by apply lookup_inc_ne.
  - intros Hcode. apply Z.leb_gt in Hcode. by rewrite Hcode.
Qed.

(** C4: every request that completes through the middleware adds exactly
    one terminal line to the log; its level is error when the final status
    code is at least 500 and info otherwise, and in both cases the level
    passes the threshold configured on the winston logger. *)
Theorem C4_terminal_log_line
    (d : app.Dispatch) (req : app.Request) (t0 elapsed : Z)
    (span : option logger.SpanContext) (st : app.State) :
  let req' := app.matched d req in
  let o := app.handle d req' span st in
  let code := app.final_status (app.out_status o) in
  let st' := app.serve d req t0 elapsed app.Finished span st in
  ∃ e, app.received st' = app.received (app.out_state o) ++ [e] ∧
       (500 ≤ code → logger.entry_level e = logger.LvlError) ∧
       (code < 500 → logger.entry_level e = logger.LvlInfo) ∧
       logger.written e = true.
Proof.
  intros req' o code st'. subst st'. rewrite serve_finished. fold req' o code.
  destruct (on_finish_received t0 req' code (t0 + elapsed) span
              (app.out_state o)) as (e & -> & Hlvl & _).
  exists e. split; [done|].
  assert (logger.written e = true) as Hw.
  { apply written_iff. rewrite Hlvl. by destruct (500 <=? code). }
  split_and!.
  - intros Hcode. apply Z.leb_le in Hcode. by rewrite Hlvl, Hcode.
  - intros Hcode. apply Z.leb_gt in Hcode. by rewrite Hlvl, Hcode.
  - done.
Qed.

(** C5: the route label is the pattern of the matched route when there is
    one (a non-empty [req.route.path]); without one it is the raw path of
    the request when that is present (non-empty); and without either it is
    the literal [unknown].  The middleware uses this label as the [route]
    of its metric labels and as the [route] field of its log line. *)
Theorem C5_route_label (req : app.Request) :
  let no_pattern :=
    app.req_route req = None ∨ app.req_route req = Some {| app.path := "" |} in
  let no_path := app.req_path req = None ∨ app.req_path req = Some "" in
  (∀ r, app.req_route req = Some r → app.path r ≠ "" →
        app.route_label req = app.path r) ∧
  (no_pattern → ∀ p, app.req_path req = Some p → p ≠ "" →
        app.route_label req = p) ∧
  (no_pattern → no_path → app.route_label req = "unknown") ∧
  (∀ start code end_ span st,
     app.route (app.labels_of req code) = app.route_label req ∧
     is_Some (app.httpRequestDuration
                (app.on_finish start req code end_ span st)
                !! app.labels_of req code) ∧
     is_Some (app.httpRequestsTotal
                (app.on_finish start req code end_ span st)
                !! app.labels_of req code) ∧
     ∃ e, app.received (app.on_finish start req code end_ span st)
            = app.received st ++ [e] ∧
          logger.entry_meta e !! "route"
            = Some (logger.JStr (app.route_label req))).
Proof.
  intros no_pattern no_path. unfold app.route_label. split_and!.
  - intros r -> Hr. simpl. by rewrite bool_decide_eq_false_2.
  - intros [->| ->] p -> Hp; simpl; by rewrite bool_decide_eq_false_2.
  - by intros [->| ->] [->| ->].
  - intros start code end_ span st. split_and!.
    + done.
    + rewrite on_finish_duration. unfold app.observe.
      rewrite lookup_insert_eq. eauto.
    + rewrite on_finish_requests. unfold app.inc.
      rewrite lookup_insert_eq. eauto.
    + destruct (on_finish_received start req code end_ span st)
        as (e & He & _ & _ & _ & _ & Hroute).
      eauto.
Qed.



(** C6: a GET request served by the route [/simulate-error] whose code
    comes out as 500 raises [http_requests_total] and [http_errors_total] by
    exactly one each under the labels GET, [/simulate-error], ["500"], and
    the route handler emits a warn-level line, whose level passes the
    threshold of the winston logger. *)
Theorem C6_simulate_error_scenario
    (query : gmap string string) (p : option string) (t0 elapsed : Z)
    (span : option logger.SpanContext) (st : app.State) :
  Js.parseInt_or (query !! "code") 500 = 500 →
  let req :=
    {| app.req_method := "GET"; app.req_route := None;
       app.req_path := p; app.req_query := query |} in
  let labels :=
    {| app.method := "GET"; app.route := "/simulate-error";
       app.status_code := "500" |} in
  let st' :=
    app.serve
      (app.Matched {| app.path := "/simulate-error" |} app.simulateError)
      req t0 elapsed app.Finished span st in
  app.value (app.httpRequestsTotal st') labels
    = S (app.value (app.httpRequestsTotal st) labels) ∧
  app.value (app.httpErrorsTotal st') labels
    = S (app.value (app.httpErrorsTotal st) labels) ∧
  ∃ w t, app.received st' = app.received st ++ [w; t] ∧
         logger.entry_level w = logger.LvlWarn ∧
         logger.entry_message w = "Simulating error with code 500" ∧
         logger.written w = true ∧
         logger.entry_level t = logger.LvlError.
Proof.
  intros Hcode req labels st'. subst st' req. rewrite serve_finished.
  unfold app.handle, app.matched, app.simulateError.
  cbn [app.out_status app.out_state app.req_query app.req_method
       app.req_path].
  rewrite Hcode. change (app.final_status 500) with 500.
  change (app.labels_of _ 500) with labels.
  split_and!.
  - rewrite on_finish_requests. apply value_inc.
  - rewrite on_finish_errors. apply value_inc.
  - match goal with
    | |- context [app.on_finish ?a ?r ?c ?b span ?s] =>
        destruct (on_finish_received a r c b span s) as (t & -> & Ht & _)
    end.
    unfold app.with_log, logger.warn, logger.log.
    cbn [app.received]. rewrite <- app_assoc.
    eexists _, t. split; [reflexivity|]. done.
Qed.

Lemma C6_simulate_error_scenario_witness :
  Js.parseInt_or (({[ "code" := "500" ]} : gmap string string) !! "code") 500
    = 500 ∧
  app.value
    (app.httpErrorsTotal
       (app.serve
          (app.Matched {| app.path := "/simulate-error" |} app.simulateError)
          {| app.req_method := "GET"; app.req_route := None;
             app.req_path := Some "/simulate-error";
             app.req_query := {[ "code" := "500" ]} |}
          0 1000000 app.Finished None app.initial))
    {| app.method := "GET"; app.route := "/simulate-error";
       app.status_code := "500" |}
  = 1%nat.
Proof.
  split; [reflexivity|].
  exact (proj1 (proj2 (C6_simulate_error_scenario
    {[ "code" := "500" ]} (Some "/simulate-error") 0 1000000 None app.initial
    eq_refl))).
Defined.

(** ** The simulation routes on concrete requests *)

Section scenarios.

Import logger app.

Example parseInt_unit : Js.parseInt "  42px" = Some 42.
Proof. reflexivity. Qed.

Example parseInt_hex : Js.parseInt "-0x1F" = Some (-31).
Proof. reflexivity. Qed.

Example parseInt_nan : Js.parseInt "abc" = None.
Proof. reflexivity. Qed.

Example parseInt_zero_is_falsy : Js.parseInt_or (Some "0") 500 = 500.
Proof. reflexivity. Qed.

Example String_of_status : Js.String_of_int 404 = "404".
Proof. reflexivity. Qed.

Example resolve_default :
  otel.resolveTracesUrl ∅ = "http://jaeger:4318/v1/traces".
Proof. reflexivity. Qed.

Example resolve_strips_slashes :
  otel.resolveTracesUrl {[ "OTEL_EXPORTER_OTLP_ENDPOINT" := "http://c:4318//" ]}
  = "http://c:4318/v1/traces".
Proof. reflexivity. Qed.

(** An unmatched path is answered 404 and measured under its raw path. *)
Example unmatched_is_measured :
  httpRequestsTotal
    (serve (Unrouted 404)
       {| req_method := "GET"; req_route := None;
          req_path := Some "/nowhere"; req_query := ∅ |}
       0 1000 Finished None initial)
  !! {| method := "GET"; route := "/nowhere"; status_code := "404" |}
  = Some 1%nat.
Proof. reflexivity. Qed.

(** [/simulate-latency] with the delay 500: what the code fixes.  The
    observation is filed under GET, [/simulate-latency], ["200"], and its
    value is the difference of the two clock readings in seconds, hence at
    least one half whenever those readings are at least 500 ms apart; the
    handler logs an info-level line that names the delay, and that line
    carries the identifiers of the span that is active, if there is one. *)
Lemma simulate_latency_scenario
    (query : gmap string string) (p : option string) (t0 elapsed : Z)
    (span : option SpanContext) (st : State) :
  Js.parseInt_or (query !! "ms") 500 = 500 →
  let req :=
    {| req_method := "GET"; req_route := None;
       req_path := p; req_query := query |} in
  let labels :=
    {| method := "GET"; route := "/simulate-latency";
       status_code := "200" |} in
  let st' :=
    serve (Matched {| path := "/simulate-latency" |} simulateLatency)
      req t0 elapsed Finished span st in
  observations (httpRequestDuration st') labels
    = observations (httpRequestDuration st) labels
      ++ [durationSeconds t0 (t0 + elapsed)] ∧
  (500000000 ≤ elapsed → (1 # 2 <= durationSeconds t0 (t0 + elapsed))%Q) ∧
  ∃ i t, received st' = received st ++ [i; t] ∧
         entry_level i = LvlInfo ∧
         entry_message i = "Simulating latency of 500ms" ∧
         written i = true ∧
         (∀ sc, span = Some sc →
            entry_meta i !! "trace_id" = Some (JStr (traceId sc))).
Proof.
  intros Hms req labels st'. subst st' req. rewrite serve_finished.
  unfold handle, matched, simulateLatency.
  cbn [out_status out_state req_query req_method req_path].
  rewrite Hms. change (final_status 200) with 200.
  change (labels_of _ 200) with labels.
  split_and!.
  - rewrite on_finish_duration. apply observations_observe.
  - intros Hel. unfold durationSeconds, Qle. simpl. lia.
  - match goal with
    | |- context [on_finish ?a ?r ?c ?b span ?s] =>
        destruct (on_finish_received a r c b span s) as (t & -> & _)
    end.
    unfold with_log, info, log.
    cbn [received]. rewrite <- app_assoc.
    eexists _, t. split; [reflexivity|]. split_and!; try done.
    intros sc ->. simpl. by simplify_map_eq.
Qed.

End scenarios.

(** ** Numerals: [String] and [parseInt] *)

Section numerals.

Lemma digits_acc d p :
  Js.digits 10 (Some (Z.pos p)) (NilEmpty.string_of_uint d)
  = Some (Z.pos (Pos.of_uint_acc d p)).
Proof.
  revert p. induction d as [|d IH|d IH|d IH|d IH|d IH|d IH|d IH|d IH|d IH|d IH];
    intros p; [done|..];
    cbn [NilEmpty.string_of_uint Js.digits Pos.of_uint_acc];
    match goal with
    | |- context [Js.digit 10 ?c] =>
        let v := eval vm_compute in (Js.digit 10 c) in
        change (Js.digit 10 c) with v
    end;
    cbn [default]; rewrite <- IH; do 2 f_equal;
    unfold id; lia.
Qed.

Lemma digits_of_uint d :
  Js.digits 10 (Some 0) (NilEmpty.string_of_uint d)
  = Some (Z.of_N (Pos.of_uint d)).
Proof.
  induction d as [|d IH|d IH|d IH|d IH|d IH|d IH|d IH|d IH|d IH|d IH];
    [done|exact IH|..];
    cbn [NilEmpty.string_of_uint Js.digits Pos.of_uint];
    match goal with
    | |- context [Js.digit 10 ?c] =>
        let v := eval vm_compute in (Js.digit 10 c) in
        change (Js.digit 10 c) with v
    end;
    apply digits_acc.
Qed.

(** A numeral printed by [String] starts with a digit and is not a
    hexadecimal literal, so [parseInt] reads all of it in base ten. *)
Lemma parseInt_numeral u :
  u ≠ Decimal.Nil →
  Js.parseInt (NilEmpty.string_of_uint u)
    = Z.mul 1 <$> Js.digits 10 (Some 0) (NilEmpty.string_of_uint u) ∧
  Js.parseInt (String "-" (NilEmpty.string_of_uint u))
    = Z.mul (-1) <$> Js.digits 10 (Some 0) (NilEmpty.string_of_uint u).
Proof.
  intros Hu.
  destruct u as [|d|d|d|d|d|d|d|d|d|d]; [done|..].
  1: destruct d as [|d|d|d|d|d|d|d|d|d|d].
  all: split; reflexivity.
Qed.

(** In the model, parsing the numeral of [n] gives [n] back.  JavaScript
    agrees wherever [String] prints all digits, that is below 10^21, which
    covers every status code. *)
Lemma parseInt_String_of_int n : Js.parseInt (Js.String_of_int n) = Some n.
Proof.
  destruct n as [|p|p]; [reflexivity|..];
    pose proof (Unsigned.to_uint_nonnil p) as Hnil;
    pose proof (digits_of_uint (Pos.to_uint p)) as Hd;
    rewrite Unsigned.of_to in Hd;
    destruct (parseInt_numeral _ Hnil) as [Hpos Hneg];
    unfold Js.String_of_int, Z.to_int, NilZero.string_of_int,
      NilZero.string_of_uint.
  - destruct (Pos.to_uint p) eqn:Hu; try done; rewrite <- Hu in *;
      by rewrite Hpos, Hd.
  - destruct (Pos.to_uint p) eqn:Hu; try done; rewrite <- Hu in *;
      by rewrite Hneg, Hd.
Qed.

Lemma String_of_int_inj a b :
  Js.String_of_int a = Js.String_of_int b → a = b.
Proof.
  intros Hab. pose proof (parseInt_String_of_int a) as Ha.
  rewrite Hab, parseInt_String_of_int in Ha. congruence.
Qed.

End numerals.

(** ** The event loop: what every interleaving of callbacks keeps *)

Section event_loop.

Import logger app server.

Implicit Types (l labels : Labels) (c : gmap Labels nat) (st : State)
  (req : Request) (span : option SpanContext) (cb : Callback)
  (cbs : list Callback) (r : AppRoute).

Lemma value_inc_ne labels l c : l ≠ labels → value (inc labels c) l = value c l.
Proof. intros Hl. unfold value. by rewrite lookup_inc_ne. Qed.

Lemma value_inc_le labels l c : (value c l ≤ value (inc labels c) l)%nat.
Proof.
  destruct (decide (l = labels)) as [->|Hl].
  - rewrite value_inc. lia.
  - by rewrite value_inc_ne.
Qed.

Lemma observations_observe_ne labels l v (h : gmap Labels (list Q)) :
  l ≠ labels → observations (observe labels v h) l = observations h l.
Proof. intros Hl. unfold observations. by rewrite lookup_observe_ne. Qed.

Lemma run_snoc cbs cb st : run (cbs ++ [cb]) st = step cb (run cbs st).
Proof. unfold run. by rewrite foldl_app. Qed.

(** A route handler leaves the three metrics alone and adds at most one
    line to the log. *)
Lemma handler_frame r req span st :
  httpRequestDuration (out_state (handler r req span st))
    = httpRequestDuration st ∧
  httpRequestsTotal (out_state (handler r req span st))
    = httpRequestsTotal st ∧
  httpErrorsTotal (out_state (handler r req span st)) = httpErrorsTotal st ∧
  ∃ new, received (out_state (handler r req span st)) = received st ++ new ∧
         (length new ≤ 1)%nat ∧
         Forall (λ e, entry_meta e !! "trace_id" = JStr ∘ traceId <$> span ∧
                      entry_meta e !! "span_id" = JStr ∘ spanId <$> span) new.
Proof.
  destruct r; simpl; split_and!; try done;
    try (exists []; rewrite app_nil_r; split_and!; [done|simpl; lia|done]);
    unfold info, warn, log; (eexists [_]; split_and!; [done|done|]);
    repeat constructor; destruct span; simpl; by simplify_map_eq.
Qed.

(** The line of the ["finish"] listener carries the identifiers of the
    active span, and none when no span is active. *)
Lemma on_finish_ids start req code end_ span st :
  ∃ e, received (on_finish start req code end_ span st) = received st ++ [e] ∧
       entry_meta e !! "trace_id" = JStr ∘ traceId <$> span ∧
       entry_meta e !! "span_id" = JStr ∘ spanId <$> span.
Proof.
  unfold on_finish.
  destruct (500 <=? code); simpl; unfold error, info, log;
    (eexists; split; [reflexivity|]); destruct span; simpl;
    by simplify_map_eq.
Qed.

(** Errors never outnumber requests, label set by label set. *)
Lemma step_errors_le cb st :
  (∀ l, (value (httpErrorsTotal st) l ≤ value (httpRequestsTotal st) l)%nat) →
  ∀ l, (value (httpErrorsTotal (step cb st)) l
        ≤ value (httpRequestsTotal (step cb st)) l)%nat.
Proof.
  intros Hst l. destruct cb as [r req span|start req code end_ span]; simpl.
  - destruct (handler_frame r req span st) as (_ & -> & -> & _). apply Hst.
  - rewrite on_finish_requests, on_finish_errors.
    specialize (Hst l).
    destruct (500 <=? code).
    + destruct (decide (l = labels_of req code)) as [->|Hl].
      * rewrite !value_inc. lia.
      * by rewrite !value_inc_ne.
    + etrans; [exact Hst|apply value_inc_le].
Qed.

(** The histogram holds one observation per counted request. *)
Lemma step_observations_count cb st :
  (∀ l, length (observations (httpRequestDuration st) l)
        = value (httpRequestsTotal st) l) →
  ∀ l, length (observations (httpRequestDuration (step cb st)) l)
       = value (httpRequestsTotal (step cb st)) l.
Proof.
  intros Hst l. destruct cb as [r req span|start req code end_ span]; simpl.
  - destruct (handler_frame r req span st) as (-> & -> & _). apply Hst.
  - rewrite on_finish_requests, on_finish_duration.
    destruct (decide (l = labels_of req code)) as [->|Hl].
    + rewrite observations_observe, value_inc, length_app, Hst. simpl. lia.
    + rewrite observations_observe_ne, value_inc_ne by done. apply Hst.
Qed.

Lemma step_accounted cb st : accounted st → accounted (step cb st).
Proof.
  intros Hst l. destruct cb as [r req span|start req code end_ span]; simpl.
  - destruct (handler_frame r req span st) as (_ & -> & -> & _). apply Hst.
  - rewrite on_finish_requests, on_finish_errors.
    destruct (decide (l = labels_of req code)) as [->|Hl].
    + right. exists code. split; [done|].
      destruct (Hst (labels_of req code)) as [[Hr He]|(code' & Hc & He)].
      * destruct (500 <=? code); [by rewrite !value_inc, Hr, He|done].
      * apply String_of_int_inj in Hc. subst code'.
        destruct (500 <=? code); [by rewrite !value_inc, He|done].
    + destruct (Hst l) as [[Hr He]|(code' & Hc & He)].
      * left. destruct (500 <=? code); by rewrite ?value_inc_ne.
      * right. exists code'. split; [done|].
        destruct (500 <=? code); by rewrite ?value_inc_ne.
Qed.

Lemma run_invariant (P : State → Prop) cbs st :
  (∀ cb st, P st → P (step cb st)) → P st → P (run cbs st).
Proof.
  intros Hstep Hst. induction cbs as [|cb cbs IH] using rev_ind; [done|].
  rewrite run_snoc. by apply Hstep.
Qed.

(** Counters only grow, and the histogram and the log are only appended
    to. *)
Lemma step_grows cb st :
  (∀ l, (value (httpRequestsTotal st) l
         ≤ value (httpRequestsTotal (step cb st)) l)%nat) ∧
  (∀ l, (value (httpErrorsTotal st) l
         ≤ value (httpErrorsTotal (step cb st)) l)%nat) ∧
  (∀ l, observations (httpRequestDuration st) l
        `prefix_of` observations (httpRequestDuration (step cb st)) l) ∧
  received st `prefix_of` received (step cb st).
Proof.
  destruct cb as [r req span|start req code end_ span]; simpl.
  - destruct (handler_frame r req span st) as (-> & -> & -> & new & -> & _).
    split_and!; try done. by exists new.
  - rewrite on_finish_requests, on_finish_errors, on_finish_duration.
    destruct (on_finish_ids start req code end_ span st) as (e & -> & _).
    split_and!.
    + intros l. apply value_inc_le.
    + intros l. destruct (500 <=? code); [apply value_inc_le|done].
    + intros l. destruct (decide (l = labels_of req code)) as [->|Hl].
      * rewrite observations_observe. by eexists.
      * by rewrite observations_observe_ne.
    + by eexists.
Qed.

End event_loop.

(** X1: whatever handlers of the declared routes and ["finish"] listeners
    have run, in whatever order, since the start of the process,
    [http_errors_total] does not exceed [http_requests_total] on any label
    set. *)
Theorem X1_errors_never_exceed_requests
    (cbs : list server.Callback) (l : app.Labels) :
  (app.value (app.httpErrorsTotal (server.run cbs app.initial)) l
   ≤ app.value (app.httpRequestsTotal (server.run cbs app.initial)) l)%nat.
Proof.
  revert l.
  apply (run_invariant
    (λ st, ∀ l, (app.value (app.httpErrorsTotal st) l
                 ≤ app.value (app.httpRequestsTotal st) l)%nat)).
  - apply step_errors_le.
  - done.
Qed.

(** X2: after any interleaving of callbacks from the start of the process,
    the histogram holds, for every label set, exactly as many observations
    as [http_requests_total] counts requests. *)
Theorem X2_histogram_count_is_requests
    (cbs : list server.Callback) (l : app.Labels) :
  length (app.observations
            (app.httpRequestDuration (server.run cbs app.initial)) l)
  = app.value (app.httpRequestsTotal (server.run cbs app.initial)) l.
Proof.
  revert l.
  apply (run_invariant
    (λ st, ∀ l, length (app.observations (app.httpRequestDuration st) l)
                = app.value (app.httpRequestsTotal st) l)).
  - apply step_observations_count.
  - done.
Qed.

(** X3: after any interleaving of callbacks from the start of the process,
    on a label set whose status code is the numeral of [code] the error
    counter equals the request counter when [code >= 500] and is zero when
    [code < 500]: a request is never counted as an error under a status
    below 500, and never missed under one from 500 on. *)
Theorem X3_errors_follow_status_class
    (cbs : list server.Callback) (m r : string) (code : Z) :
  let st := server.run cbs app.initial in
  let l := {| app.method := m; app.route := r;
              app.status_code := Js.String_of_int code |} in
  app.value (app.httpErrorsTotal st) l
  = if 500 <=? code then app.value (app.httpRequestsTotal st) l else 0%nat.
Proof.
  intros st l.
  assert (server.accounted st) as Hst.
  { apply run_invariant; [apply step_accounted|]. intros l'. by left. }
  destruct (Hst l) as [[Hr He]|(code' & Hc & He)].
  - rewrite He, Hr. by destruct (500 <=? code).
  - apply String_of_int_inj in Hc. by subst code'.
Qed.

(** X4: no callback ever takes anything back: from any state and through
    any interleaving, both counters are non-decreasing on every label set,
    the observations of every label set are extended at the end only, and
    the log is extended at the end only. *)
Theorem X4_counters_grow_log_appends
    (cbs : list server.Callback) (st : app.State) :
  (∀ l, (app.value (app.httpRequestsTotal st) l
         ≤ app.value (app.httpRequestsTotal (server.run cbs st)) l)%nat) ∧
  (∀ l, (app.value (app.httpErrorsTotal st) l
         ≤ app.value (app.httpErrorsTotal (server.run cbs st)) l)%nat) ∧
  (∀ l, app.observations (app.httpRequestDuration st) l
        `prefix_of`
        app.observations (app.httpRequestDuration (server.run cbs st)) l) ∧
  app.received st `prefix_of` app.received (server.run cbs st).
Proof.
  induction cbs as [|cb cbs (IH1 & IH2 & IH3 & IH4)] using rev_ind; [done|].
  rewrite run_snoc.
  destruct (step_grows cb (server.run cbs st)) as (H1 & H2 & H3 & H4).
  split_and!.
  - intros l. etrans; [apply IH1|apply H1].
  - intros l. etrans; [apply IH2|apply H2].
  - intros l. etrans; [apply IH3|apply H3].
  - etrans; [apply IH4|apply H4].
Qed.

(** X6: [/simulate-error?code=N], with [N] the decimal numeral of a status
    code Node accepts (100..999), is answered with that code: the request is
    counted under GET, [/simulate-error] and the very numeral [N], the
    handler's warn line names [N], and [http_errors_total] moves (by one,
    under the same labels) exactly when the code is 500 or more. *)
Theorem X6_simulate_error_echoes_code
    (code : Z) (query : gmap string string) (p : option string)
    (t0 elapsed : Z) (span : option logger.SpanContext) (st : app.State) :
  100 ≤ code ≤ 999 →
  query !! "code" = Some (Js.String_of_int code) →
  let req :=
    {| app.req_method := "GET"; app.req_route := None;
       app.req_path := p; app.req_query := query |} in
  let labels :=
    {| app.method := "GET"; app.route := "/simulate-error";
       app.status_code := Js.String_of_int code |} in
  let st' :=
    app.serve (server.registered server.GetSimulateError)
      req t0 elapsed app.Finished span st in
  app.value (app.httpRequestsTotal st') labels
    = S (app.value (app.httpRequestsTotal st) labels) ∧
  app.value (app.httpErrorsTotal st') labels
    = (if 500 <=? code then S (app.value (app.httpErrorsTotal st) labels)
       else app.value (app.httpErrorsTotal st) labels) ∧
  ∃ w t, app.received st' = app.received st ++ [w; t] ∧
         logger.entry_level w = logger.LvlWarn ∧
         logger.entry_message w
           = "Simulating error with code " +:+ Js.String_of_int code ∧
         logger.entry_level t
           = if 500 <=? code then logger.LvlError else logger.LvlInfo.
Proof.
  intros Hcode Hq req labels st'. subst st' req. rewrite serve_finished.
  unfold server.registered, app.handle, app.matched. simpl server.handler.
  unfold app.simulateError.
  cbn [app.out_status app.out_state app.req_query app.req_method
       app.req_path].
  assert (Js.parseInt_or (query !! "code") 500 = code) as ->.
  { unfold Js.parseInt_or. rewrite Hq. simpl.
    rewrite parseInt_String_of_int.
    destruct (Z.eqb_spec code 0); [lia|done]. }
  assert (app.final_status code = code) as ->.
  { unfold app.final_status.
    destruct (Z.leb_spec 100 code); [|lia].
    destruct (Z.leb_spec code 999); [done|lia]. }
  split_and!.
  - rewrite on_finish_requests. exact (value_inc labels _).
  - rewrite on_finish_errors.
    destruct (500 <=? code); [exact (value_inc labels _)|done].
  - match goal with
    | |- context [app.on_finish ?a ?r ?c ?b span ?s] =>
        destruct (on_finish_received a r c b span s) as (t & -> & Ht & _)
    end.
    unfold app.with_log, logger.warn, logger.log.
    cbn [app.received]. rewrite <- app_assoc.
    eexists _, t. split; [reflexivity|]. done.
Qed.

Lemma X6_simulate_error_echoes_code_witness :
  100 ≤ 404 ≤ 999 ∧
  app.value
    (app.httpErrorsTotal
       (app.serve (server.registered server.GetSimulateError)
          {| app.req_method := "GET"; app.req_route := None;
             app.req_path := Some "/simulate-error";
             app.req_query := {[ "code" := "404" ]} |}
          0 1000000 app.Finished None app.initial))
    {| app.method := "GET"; app.route := "/simulate-error";
       app.status_code := "404" |}
  = 0%nat.
Proof.
  split; [lia|].
  exact (proj1 (proj2 (X6_simulate_error_echoes_code
    404 {[ "code" := "404" ]} (Some "/simulate-error") 0 1000000 None
    app.initial ltac:(lia) eq_refl))).
Defined.

(** X7: the simulated delay and the simulated status code are never zero:
    a parameter that is absent, is not a number or parses to zero is
    replaced by 500, and every other parsed value, negative ones included,
    is used as it is. *)
Theorem X7_simulation_defaults
    (req : app.Request) (span : option logger.SpanContext) (st : app.State) :
  let delay := app.out_delay (app.simulateLatency req span st) in
  let code := app.out_status (app.simulateError req span st) in
  let ms := app.req_query req !! "ms" ≫= Js.parseInt in
  let cd := app.req_query req !! "code" ≫= Js.parseInt in
  delay ≠ 0 ∧ code ≠ 0 ∧
  (ms = None ∨ ms = Some 0 → delay = 500) ∧
  (cd = None ∨ cd = Some 0 → code = 500) ∧
  (∀ n, n ≠ 0 → ms = Some n → delay = n) ∧
  (∀ n, n ≠ 0 → cd = Some n → code = n) ∧
  app.out_status (app.simulateLatency req span st) = 200.
Proof.
  intros delay code ms cd. subst delay code.
  unfold app.simulateLatency, app.simulateError, Js.parseInt_or. simpl.
  fold ms cd.
  split_and!.
  - destruct ms as [n|]; [|done]. by destruct (Z.eqb_spec n 0).
  - destruct cd as [n|]; [|done]. by destruct (Z.eqb_spec n 0).
  - by intros [->| ->].
  - by intros [->| ->].
  - intros n Hn ->. by destruct (Z.eqb_spec n 0).
  - intros n Hn ->. by destruct (Z.eqb_spec n 0).
  - done.
Qed.

(** X8: every line a request to one of the declared routes adds to the
    log, the handler's and the middleware's alike, carries the
    [trace_id] and [span_id] of the span that is active, and carries
    neither when no span is active; a request adds at most two lines. *)
Theorem X8_request_lines_share_span
    (r : server.AppRoute) (req : app.Request) (t0 elapsed : Z)
    (c : app.Completion) (span : option logger.SpanContext) (st : app.State) :
  let st' := app.serve (server.registered r) req t0 elapsed c span st in
  ∃ new, app.received st' = app.received st ++ new ∧
         (length new ≤ 2)%nat ∧
         Forall (λ e,
           logger.entry_meta e !! "trace_id"
             = logger.JStr ∘ logger.traceId <$> span ∧
           logger.entry_meta e !! "span_id"
             = logger.JStr ∘ logger.spanId <$> span) new.
Proof.
  intros st'. subst st'.
  set (req' := app.matched (server.registered r) req).
  destruct (handler_frame r req' span st) as (_ & _ & _ & new & Hnew & Hlen & Hids).
  destruct c.
  - rewrite serve_finished. fold req'.
    change (app.handle (server.registered r)) with (server.handler r).
    match goal with
    | |- context [app.on_finish ?a ?q ?k ?b span ?s] =>
        destruct (on_finish_ids a q k b span s) as (e & -> & He)
    end.
    rewrite Hnew, <- app_assoc. exists (new ++ [e]). split_and!; [done| |].
    + rewrite length_app. simpl. lia.
    + apply Forall_app. split; [done|]. by constructor.
  - rewrite serve_aborted. fold req'.
    change (app.handle (server.registered r)) with (server.handler r).
    exists new. split_and!; [done|lia|done].
Qed.

(** X10: a non-empty [OTEL_EXPORTER_OTLP_TRACES_ENDPOINT] decides the URL on
    its own, whatever else the environment holds, and an empty one counts as
    not set. *)
Theorem X10_traces_endpoint_precedence
    (env env' : gmap string string) (t : string) :
  t ≠ "" →
  otel.resolveTracesUrl (<["OTEL_EXPORTER_OTLP_TRACES_ENDPOINT" := t]> env)
    = otel.resolveTracesUrl
        (<["OTEL_EXPORTER_OTLP_TRACES_ENDPOINT" := t]> env') ∧
  otel.resolveTracesUrl (<["OTEL_EXPORTER_OTLP_TRACES_ENDPOINT" := ""]> env)
    = otel.resolveTracesUrl (delete "OTEL_EXPORTER_OTLP_TRACES_ENDPOINT" env).
Proof.
  intros Ht. unfold otel.resolveTracesUrl. split.
  - by rewrite !base_of_traces_endpoint.
  - unfold otel.base.
    rewrite lookup_insert_eq, lookup_delete_eq.
    by rewrite lookup_insert_ne, lookup_delete_ne.
Qed.

Lemma X10_traces_endpoint_precedence_witness :
  "http://a:4318/v1/traces" ≠ "" ∧
  otel.resolveTracesUrl
    (<["OTEL_EXPORTER_OTLP_TRACES_ENDPOINT" := "http://a:4318/v1/traces"]>
       {[ "OTEL_EXPORTER_OTLP_ENDPOINT" := "http://b:4318" ]})
  = otel.resolveTracesUrl
      (<["OTEL_EXPORTER_OTLP_TRACES_ENDPOINT" := "http://a:4318/v1/traces"]> ∅).
Proof.
  split; [discriminate|].
  exact (proj1 (X10_traces_endpoint_precedence
    {[ "OTEL_EXPORTER_OTLP_ENDPOINT" := "http://b:4318" ]} ∅
    "http://a:4318/v1/traces" ltac:(discriminate))).
Defined.

(** X11: of the declared routes only [/simulate-error] and a failing
    [/metrics] can raise [http_errors_total]: a request to [/], to
    [/simulate-latency] or to a [/metrics] that renders leaves the error
    counter as it is, whatever its query and however it ends; a finished
    request to a [/metrics] that fails to render is itself counted as an
    error under the status 500. *)
Theorem X11_routes_that_never_fail
    (req : app.Request) (t0 elapsed : Z) (c : app.Completion)
    (span : option logger.SpanContext) (st : app.State) (body : string) :
  app.httpErrorsTotal
    (app.serve (server.registered server.GetRoot) req t0 elapsed c span st)
    = app.httpErrorsTotal st ∧
  app.httpErrorsTotal
    (app.serve (server.registered server.GetSimulateLatency)
       req t0 elapsed c span st)
    = app.httpErrorsTotal st ∧
  app.httpErrorsTotal
    (app.serve (server.registered (server.GetMetrics (Some body)))
       req t0 elapsed c span st)
    = app.httpErrorsTotal st ∧
  let failed :=
    app.serve (server.registered (server.GetMetrics None))
      req t0 elapsed app.Finished span st in
  let labels :=
    {| app.method := app.req_method req; app.route := "/metrics";
       app.status_code := "500" |} in
  app.value (app.httpErrorsTotal failed) labels
    = S (app.value (app.httpErrorsTotal st) labels).
Proof.
  split_and!.
  1-3: destruct c; [rewrite serve_finished, on_finish_errors|rewrite serve_aborted];
    done.
  intros failed labels. subst failed.
  rewrite serve_finished, on_finish_errors. exact (value_inc labels _).
Qed.

(** ** otel.js: trailing slashes *)

Section trailing_slashes.

Implicit Types (s t u b : string) (a c : ascii) (n : nat).

Lemma append_assoc s t u : (s +:+ t) +:+ u = s +:+ t +:+ u.
Proof.
  induction s as [|c s IH]; [done|]. by rewrite !append_cons, IH.
Qed.

Lemma append_empty_r s : s +:+ "" = s.
Proof. induction s as [|c s IH]; [done|]. by rewrite append_cons, IH. Qed.

Lemma ends_with_trans s t u :
  Js.ends_with s t → Js.ends_with t u → Js.ends_with s u.
Proof.
  intros [p ->] [q ->]. exists (q +:+ p). by rewrite append_assoc.
Qed.

Lemma ends_with_char_unique a c s :
  Js.ends_with (String a "") s → Js.ends_with (String c "") s → a = c.
Proof.
  induction s as [|d s IH].
  - by intros [=]%ends_with_empty.
  - rewrite !ends_with_cons. intros [Ha|Ha] [Hc|Hc].
    + congruence.
    + injection Ha as -> ->. by apply ends_with_empty in Hc.
    + injection Hc as -> ->. by apply ends_with_empty in Ha.
    + by apply IH.
Qed.

Lemma snoc_inj s t a c :
  s +:+ String a "" = t +:+ String c "" → s = t ∧ a = c.
Proof.
  revert t. induction s as [|d s IH]; intros [|e t];
    rewrite ?append_nil, ?append_cons.
  - by intros [= ->].
  - intros [= -> Ht]. symmetry in Ht. by apply append_eq_empty in Ht as [].
  - intros [= -> Hs]. by apply append_eq_empty in Hs as [].
  - intros [= -> Hst]. apply IH in Hst as [-> ->]. done.
Qed.

Lemma slashes_snoc n : Js.slashes (S n) = Js.slashes n +:+ "/".
Proof.
  induction n as [|n IH]; [done|].
  change (String "/" (Js.slashes (S n)) = String "/" (Js.slashes n +:+ "/")).
  by f_equal.
Qed.

Lemma ends_with_slashes s n : Js.ends_with "/" (s +:+ Js.slashes (S n)).
Proof.
  exists (s +:+ Js.slashes n). by rewrite slashes_snoc, append_assoc.
Qed.

Lemma strip_slashes n : Js.strip_trailing_slashes (Js.slashes n) = "".
Proof. induction n as [|n IH]; [done|]. simpl. by rewrite IH. Qed.

Lemma strip_append_slashes s n :
  Js.strip_trailing_slashes (s +:+ Js.slashes n) = Js.strip_trailing_slashes s.
Proof.
  induction s as [|c s IH]; [apply strip_slashes|].
  rewrite append_cons. simpl. by rewrite IH.
Qed.

Lemma strip_no_slash s :
  ¬ Js.ends_with "/" s → Js.strip_trailing_slashes s = s.
Proof.
  induction s as [|c s IH]; [done|].
  rewrite ends_with_cons. intros Hs. simpl. rewrite IH by tauto.
  destruct s as [|d s]; [|done].
  rewrite bool_decide_eq_false_2; [done|]. intros ->. tauto.
Qed.

(** Behind one or more slashes the test for [/v1/traces] can only succeed
    through its optional slash, and then only for a single one. *)
Lemma points_to_traces_slashes b n :
  ¬ Js.ends_with "/" b →
  (2 ≤ n)%nat ∨ ¬ Js.ends_with "/v1/traces" b →
  otel.points_to_traces (b +:+ Js.slashes n) = false.
Proof.
  intros Hb Hn. apply not_true_iff_false.
  rewrite points_to_traces_spec. intros [H|H].
  - destruct n as [|n].
    + simpl in H. rewrite append_empty_r in H. destruct Hn; [lia|done].
    + pose proof (ends_with_slashes b n) as Hs.
      assert (Js.ends_with "s" (b +:+ Js.slashes (S n))) as Hs'.
      { eapply ends_with_trans; [|exact H]. by exists "/v1/trace". }
      by pose proof (ends_with_char_unique _ _ _ Hs Hs').
  - destruct n as [|[|n]].
    + simpl in H. rewrite append_empty_r in H. apply Hb.
      eapply ends_with_trans; [|exact H]. by exists "/v1/traces".
    + destruct H as [p Hp].
      change (p +:+ "/v1/traces/") with (p +:+ "/v1/traces" +:+ "/") in Hp.
      rewrite <- append_assoc in Hp.
      change (Js.slashes 1) with "/" in Hp.
      apply snoc_inj in Hp as [-> _]. destruct Hn; [lia|].
      by apply H, ends_with_append.
    + destruct H as [p Hp].
      change (p +:+ "/v1/traces/") with (p +:+ "/v1/traces" +:+ "/") in Hp.
      rewrite <- append_assoc, slashes_snoc, <- (append_assoc b) in Hp.
      apply snoc_inj in Hp as [Hp _].
      pose proof (ends_with_slashes b n) as Hs. rewrite Hp in Hs.
      assert (Js.ends_with "s" (p +:+ "/v1/traces")) as Hs'.
      { eapply ends_with_trans; [|apply ends_with_append].
        by exists "/v1/trace". }
      by pose proof (ends_with_char_unique _ _ _ Hs Hs').
Qed.

End trailing_slashes.

(** X12: trailing slashes of the base are dropped before [/v1/traces] is
    appended: for a base made of a stem [b] that does not end with a slash,
    followed by [n] slashes, the URL is [b] followed by [/v1/traces],
    whenever [b] does not itself end in [/v1/traces].  The test for an
    existing [/v1/traces] tolerates one slash only: when [b] does end in
    [/v1/traces] and two or more slashes follow, the path is appended a
    second time. *)
Theorem X12_trailing_slashes_dropped
    (env : gmap string string) (b : string) (n : nat) :
  otel.base env = b +:+ Js.slashes n →
  ¬ Js.ends_with "/" b →
  (2 ≤ n)%nat ∨ ¬ Js.ends_with "/v1/traces" b →
  otel.resolveTracesUrl env = b +:+ "/v1/traces".
Proof.
  intros Hbase Hb Hn. unfold otel.resolveTracesUrl. rewrite Hbase.
  rewrite points_to_traces_slashes by done.
  by rewrite strip_append_slashes, strip_no_slash.
Qed.

Lemma X12_trailing_slashes_dropped_witness :
  otel.resolveTracesUrl
    {[ "OTEL_EXPORTER_OTLP_ENDPOINT" := "http://c:4318/v1/traces//" ]}
  = "http://c:4318/v1/traces/v1/traces".
Proof.
  apply (X12_trailing_slashes_dropped
    {[ "OTEL_EXPORTER_OTLP_ENDPOINT" := "http://c:4318/v1/traces//" ]}
    "http://c:4318/v1/traces" 2).
  - reflexivity.
  - intros H%test_at_end_spec. discriminate H.
  - left. lia.
Defined.
